(** * Tetris game engine (src/tetris-game.tsx): shallow embedding and proofs

    JS numbers are modelled as [Z]; a board is a list of rows of cells, a
    cell being [0] (empty) or non-zero (filled; the source writes [1]).
    Arrays are lists read with stdpp's [!!].  The React state of the
    [TetrisGame] component is the record [GameState]; a state setter call is
    a field update of the state that the callback returns.  Random piece
    selection ([Math.random]) is an explicit argument. *)

From Stdlib Require Import ZArith Lia String.
From stdpp Require Import base list.
Open Scope Z_scope.

(** ** Data model *)

Definition BOARD_WIDTH : Z := 10.
Definition BOARD_HEIGHT : Z := 20.

(** [type Board = number[][]] *)
Abbreviation Board := (list (list Z)) (only parsing).

(** [type Position = { x: number; y: number }] *)
Record Position := mkPosition { x : Z; y : Z }.

(** [interface Piece] *)
Record Piece := mkPiece { shape : list (list Z); color : string; position : Position }.

(** [Array(BOARD_WIDTH).fill(0)] *)
Definition empty_row : list Z := replicate (Z.to_nat BOARD_WIDTH) 0.

(** [EMPTY_BOARD] *)
Definition EMPTY_BOARD : Board := replicate (Z.to_nat BOARD_HEIGHT) empty_row.

(** JS truthiness of a number (NaN does not occur). *)
Definition truthy (v : Z) : bool := negb (v =? 0).

(** [board[r][c]] for [0 <= r], [0 <= c] inside the board; a read outside
    a row gives [undefined], which every caller treats as falsy, read as 0. *)
Definition cell (b : Board) (r c : Z) : Z :=
  match b !! Z.to_nat r with
  | Some row => match row !! Z.to_nat c with Some v => v | None => 0 end
  | None => 0
  end.

(** The board has [BOARD_HEIGHT] rows of [BOARD_WIDTH] cells. *)
Definition wf_board (b : Board) : Prop :=
  length b = Z.to_nat BOARD_HEIGHT /\ Forall (fun row => length row = Z.to_nat BOARD_WIDTH) b.

(** ** TETROMINOES and createRandomPiece *)

(** [keyof typeof TETROMINOES]; the keys I, O, T, S, Z, J, L are prefixed
    with [T] because [I], [O], [S] and [Z] are taken in Rocq. *)
Inductive TetrominoType := TI | TO | TT | TS | TZ | TJ | TL.

Definition tetromino_shape (t : TetrominoType) : list (list Z) :=
  match t with
  | TI => [[0;0;0;0];[1;1;1;1];[0;0;0;0];[0;0;0;0]]
  | TO => [[1;1];[1;1]]
  | TT => [[0;1;0];[1;1;1];[0;0;0]]
  | TS => [[0;1;1];[1;1;0];[0;0;0]]
  | TZ => [[1;1;0];[0;1;1];[0;0;0]]
  | TJ => [[1;0;0];[1;1;1];[0;0;0]]
  | TL => [[0;0;1];[1;1;1];[0;0;0]]
  end.

Definition tetromino_color (t : TetrominoType) : string :=
  match t with
  | TI => "#00f0f0" | TO => "#f0f000" | TT => "#a000f0" | TS => "#00f000"
  | TZ => "#f00000" | TJ => "#0000f0" | TL => "#f0a000"
  end.

(** [createRandomPiece], the random type being given. *)
Definition createRandomPiece (t : TetrominoType) : Piece :=
  let sh := tetromino_shape t in
  mkPiece sh (tetromino_color t)
    (mkPosition (Z.div BOARD_WIDTH 2
                 - Z.div (Z.of_nat (length (default [] (sh !! 0%nat)))) 2) 0).

(** ** isValidPosition *)

(** The inner loop over the cells [x, x+1, ...] of shape row [y]; a [false]
    is the source's early [return false]. *)
Fixpoint validCells (board : Board) (pos : Position) (yi xi : nat) (cells : list Z) : bool :=
  match cells with
  | [] => true
  | v :: rest =>
      if truthy v then
        let newX := x pos + Z.of_nat xi in
        let newY := y pos + Z.of_nat yi in
        if (newX <? 0) || (newX >=? BOARD_WIDTH) || (newY >=? BOARD_HEIGHT) then false
        else if (newY >=? 0) && truthy (cell board newY newX) then false
        else validCells board pos yi (S xi) rest
      else validCells board pos yi (S xi) rest
  end.

(** The outer loop over the rows [y, y+1, ...] of the shape. *)
Fixpoint validRows (board : Board) (pos : Position) (yi : nat) (rows : list (list Z)) : bool :=
  match rows with
  | [] => true
  | row :: rest => validCells board pos yi 0 row && validRows board pos (S yi) rest
  end.

(** [isValidPosition(piece, newPosition, newShape?)], reading the [board]
    state its closure captured; [newShape || piece.shape] picks [newShape]
    whenever it is given (an array is always truthy). *)
Definition isValidPosition (board : Board) (piece : Piece) (newPosition : Position)
    (newShape : option (list (list Z))) : bool :=
  let sh := match newShape with Some s => s | None => shape piece end in
  validRows board newPosition 0 sh.

(** ** rotatePiece *)

(** [shape[0].map((_, index) => shape.map((row) => row[index]).reverse())].
    [shape[0]] of an empty shape is [undefined] and [.map] on it throws a
    TypeError: [None].  [row[index]] past the end of a row is [undefined],
    read as 0 (see [cell]). *)
Definition rotatePiece (sh : list (list Z)) : option (list (list Z)) :=
  match sh with
  | [] => None
  | row0 :: _ =>
      Some (imap (fun index _ => reverse ((fun row => default 0 (row !! index)) <$> sh)) row0)
  end.

(** ** placePiece *)

(** [newBoard[boardY][boardX] = 1] for [boardY >= 0].  [newBoard[boardY]] is
    [undefined] past the last row and the assignment throws a TypeError:
    [None].  A negative [boardX] sets a non-index property, which leaves the
    row's elements as they are.  A [boardX] past the end of the row grows
    the row beyond the board with holes, which this model does not
    represent: [None] as well. *)
Definition setCell (b : Board) (boardY boardX : Z) : option Board :=
  match b !! Z.to_nat boardY with
  | None => None
  | Some row =>
      if boardX <? 0 then Some b
      else if (Z.to_nat boardX <? length row)%nat
           then Some (<[Z.to_nat boardY := <[Z.to_nat boardX := 1]> row]> b)
           else None
  end.

(** The inner loop of [placePiece] over the cells of shape row [y]. *)
Fixpoint placeCells (b : Board) (pos : Position) (yi xi : nat) (cells : list Z) : option Board :=
  match cells with
  | [] => Some b
  | v :: rest =>
      let boardY := y pos + Z.of_nat yi in
      let boardX := x pos + Z.of_nat xi in
      b1 ← (if truthy v && (boardY >=? 0) then setCell b boardY boardX else Some b);
      placeCells b1 pos yi (S xi) rest
  end.

(** The outer loop of [placePiece] over the shape rows. *)
Fixpoint placeRows (b : Board) (pos : Position) (yi : nat) (rows : list (list Z)) : option Board :=
  match rows with
  | [] => Some b
  | row :: rest =>
      b1 ← placeCells b pos yi 0 row;
      placeRows b1 pos (S yi) rest
  end.

(** [placePiece(piece)] on the captured [board]; the copy
    [board.map((row) => [...row])] is the value [board] itself here. *)
Definition placePiece (board : Board) (piece : Piece) : option Board :=
  placeRows board (position piece) 0 (shape piece).

(** ** clearLines *)

(** [row.some((cell) => cell === 0)] *)
Definition has_empty (row : list Z) : bool := existsb (fun c => c =? 0) row.

(** [while (newBoard.length < BOARD_HEIGHT) newBoard.unshift(...)], run for
    the [k] iterations the loop makes. *)
Fixpoint unshift_rows (k : nat) (b : Board) : Board :=
  match k with
  | O => b
  | S k' => unshift_rows k' (empty_row :: b)
  end.

(** [clearLines(board)] returns [{ newBoard, linesCleared }]. *)
Definition clearLines (board : Board) : Board * Z :=
  let newBoard := List.filter has_empty board in
  let linesCleared := BOARD_HEIGHT - Z.of_nat (length newBoard) in
  (unshift_rows (Z.to_nat BOARD_HEIGHT - length newBoard)%nat newBoard, linesCleared).

(** ** Component state and callbacks *)

(** The [useState] hooks of [TetrisGame]; [lines] is the state the source
    names [lines] (the spec's linesCleared). *)
Record GameState := mkState {
  board : Board;
  currentPiece : option Piece;
  score : Z;
  lines : Z;
  level : Z;
  gameOver : bool;
  isPaused : bool
}.

Definition setBoard (b : Board) (s : GameState) : GameState :=
  mkState b (currentPiece s) (score s) (lines s) (level s) (gameOver s) (isPaused s).
Definition setCurrentPiece (p : option Piece) (s : GameState) : GameState :=
  mkState (board s) p (score s) (lines s) (level s) (gameOver s) (isPaused s).
Definition setScore (v : Z) (s : GameState) : GameState :=
  mkState (board s) (currentPiece s) v (lines s) (level s) (gameOver s) (isPaused s).
Definition setLines (v : Z) (s : GameState) : GameState :=
  mkState (board s) (currentPiece s) (score s) v (level s) (gameOver s) (isPaused s).
Definition setLevel (v : Z) (s : GameState) : GameState :=
  mkState (board s) (currentPiece s) (score s) (lines s) v (gameOver s) (isPaused s).
Definition setGameOver (v : bool) (s : GameState) : GameState :=
  mkState (board s) (currentPiece s) (score s) (lines s) (level s) v (isPaused s).
Definition setIsPaused (v : bool) (s : GameState) : GameState :=
  mkState (board s) (currentPiece s) (score s) (lines s) (level s) (gameOver s) v.

(** [movePieceDown()] run on the state [s] of the render whose closure it
    is; [t] is the type [createRandomPiece] draws.  [isValidPosition] and
    [placePiece] read the board of that render, [board s]: the state setters
    called before the game-over check are batched and do not change it.
    [None] is a thrown TypeError. *)
Definition movePieceDown (s : GameState) (t : TetrominoType) : option GameState :=
  match currentPiece s with
  | None => Some s
  | Some cp =>
      if gameOver s || isPaused s then Some s
      else
        let newPosition := mkPosition (x (position cp)) (y (position cp) + 1) in
        if isValidPosition (board s) cp newPosition None then
          Some (setCurrentPiece (Some (mkPiece (shape cp) (color cp) newPosition)) s)
        else
          newBoard ← placePiece (board s) cp;
          let '(clearedBoard, linesCleared) := clearLines newBoard in
          let s1 := setScore (score s + linesCleared * 100 * level s)
                      (setLines (lines s + linesCleared) (setBoard clearedBoard s)) in
          let nextPiece := createRandomPiece t in
          if negb (isValidPosition (board s) nextPiece (position nextPiece) None)
          then Some (setGameOver true s1)
          else Some (setCurrentPiece (Some nextPiece) s1)
  end.

(** [handleKeyPress(event)] for [event.key = key]. *)
Definition handleKeyPress (s : GameState) (t : TetrominoType) (key : string) : option GameState :=
  match currentPiece s with
  | None => Some s
  | Some cp =>
      if gameOver s || isPaused s then Some s
      else if String.eqb key "ArrowLeft"%string then
        let leftPosition := mkPosition (x (position cp) - 1) (y (position cp)) in
        if isValidPosition (board s) cp leftPosition None
        then Some (setCurrentPiece (Some (mkPiece (shape cp) (color cp) leftPosition)) s)
        else Some s
      else if String.eqb key "ArrowRight"%string then
        let rightPosition := mkPosition (x (position cp) + 1) (y (position cp)) in
        if isValidPosition (board s) cp rightPosition None
        then Some (setCurrentPiece (Some (mkPiece (shape cp) (color cp) rightPosition)) s)
        else Some s
      else if String.eqb key "ArrowDown"%string then movePieceDown s t
      else if String.eqb key "ArrowUp"%string || String.eqb key " "%string then
        rotatedShape ← rotatePiece (shape cp);
        if isValidPosition (board s) cp (position cp) (Some rotatedShape)
        then Some (setCurrentPiece (Some (mkPiece rotatedShape (color cp) (position cp))) s)
        else Some s
      else if String.eqb key "p"%string || String.eqb key "P"%string then
        Some (setIsPaused (negb (isPaused s)) s)
      else Some s
  end.

(** The Pause/Resume button: [onClick={() => setIsPaused(!isPaused)}],
    [disabled={gameOver}]. *)
Definition pauseButton (s : GameState) : GameState :=
  if gameOver s then s else setIsPaused (negb (isPaused s)) s.

(** [startNewGame()] *)
Definition startNewGame (t : TetrominoType) : GameState :=
  mkState EMPTY_BOARD (Some (createRandomPiece t)) 0 0 1 false false.

(** The effect [useEffect(() => setLevel(Math.floor(lines / 10) + 1), [lines])]:
    it runs after a render whose [lines] differs from the previous one. *)
Definition levelEffect (prev next : GameState) : GameState :=
  if lines next =? lines prev then next
  else setLevel (Z.div (lines next) 10 + 1) next.

(** The triggers of the component: an interval tick, a key press, the two
    buttons. *)
Inductive Event :=
| Tick
| KeyDown (key : string)
| PauseClick
| NewGameClick.

(** One trigger followed by the level effect. *)
Definition step (s : GameState) (t : TetrominoType) (ev : Event) : option GameState :=
  s' ← match ev with
       | Tick => movePieceDown s t
       | KeyDown k => handleKeyPress s t k
       | PauseClick => Some (pauseButton s)
       | NewGameClick => Some (startNewGame t)
       end;
  Some (levelEffect s s').


(** ** Concrete states used by the examples below *)

(** A column of 18 filled cells under the spawn area of the O piece, as nine
    O pieces dropped straight down leave it. *)
Definition stacked_board : Board :=
  [empty_row; empty_row] ++ replicate 18 [0;0;0;0;1;1;0;0;0;0].

(** A tenth O piece has just spawned on top of the column. *)
Definition stacked_state : GameState :=
  mkState stacked_board (Some (createRandomPiece TO)) 0 0 1 false false.

(** The same game, paused. *)
Definition paused_state : GameState := setIsPaused true stacked_state.

(** A board whose bottom row lacks one cell, under an I piece placed flat
    just above it so that its landing fills the gap... *)
Definition gap_board : Board :=
  replicate 19 empty_row ++ [[1;1;1;1;1;1;0;0;0;0]].

(** ...with the I piece lying flat at row 19 (its second shape row). *)
Definition gap_state : GameState :=
  mkState gap_board (Some (mkPiece (tetromino_shape TI) (tetromino_color TI) (mkPosition 6 18)))
    0 0 1 false false.

(** ** Notions of the spec used in the statements *)

(** The spec's notion: a row is complete iff every cell in it is filled. *)
Definition row_complete (row : list Z) : bool := forallb truthy row.

(** The conditions the spec puts on the target of one set shape cell. *)
Definition target_ok (board : Board) (newX newY : Z) : Prop :=
  0 <= newX < BOARD_WIDTH /\ newY < BOARD_HEIGHT /\ (0 <= newY -> cell board newY newX = 0).

(** A shape matrix of [R] rows of [C] cells. *)
Definition is_matrix (R C : nat) (m : list (list Z)) : Prop :=
  length m = R /\ Forall (fun row => length row = C) m.

(** [m[r][c]] as an option. *)
Definition entry (m : list (list Z)) (r c : nat) : option Z :=
  m !! r ≫= fun row => row !! c.

(** The board cell [(r, c)] is the target of a set cell of the piece's
    shape. *)
Definition covers (p : Piece) (r c : Z) : Prop :=
  exists yi xi row v, shape p !! yi = Some row /\ row !! xi = Some v /\ v <> 0 /\
    y (position p) + Z.of_nat yi = r /\ x (position p) + Z.of_nat xi = c.

(** [b'] is [b] with the cells of [hit] (and maybe filled cells) set to 1;
    filled-with-1 cells stay so. *)
Definition marks (b b' : Board) (hit : Z -> Z -> Prop) : Prop :=
  forall r c, 0 <= r -> 0 <= c ->
    (cell b r c = 1 -> cell b' r c = 1) /\
    (hit r c -> cell b' r c = 1) /\
    (~ hit r c -> cell b' r c = cell b r c).

Definition row_hits (pos : Position) (yi xi : nat) (cells : list Z) (r c : Z) : Prop :=
  exists j v, cells !! j = Some v /\ v <> 0 /\
    y pos + Z.of_nat yi = r /\ x pos + Z.of_nat (xi + j) = c.

Definition rows_hits (pos : Position) (yi : nat) (rows : list (list Z)) (r c : Z) : Prop :=
  exists i row j v, rows !! i = Some row /\ row !! j = Some v /\ v <> 0 /\
    y pos + Z.of_nat (yi + i) = r /\ x pos + Z.of_nat j = c.


(** ** Further code of the component *)

(** The interval period of the game loop effect:
    [Math.max(100, 1000 - (level - 1) * 100)]. *)
Definition gameSpeed (level : Z) : Z := Z.max 100 (1000 - (level - 1) * 100).

(** [displayBoard[boardY][boardX] = 2] in [renderBoard], guarded by
    [boardY >= 0 && boardY < BOARD_HEIGHT && boardX >= 0 && boardX < BOARD_WIDTH];
    [displayBoard[boardY]] missing (a board shorter than [BOARD_HEIGHT])
    would throw: [None]. *)
Definition drawCell (b : Board) (boardY boardX : Z) : option Board :=
  if (boardY >=? 0) && (boardY <? BOARD_HEIGHT) && (boardX >=? 0) && (boardX <? BOARD_WIDTH)
  then match b !! Z.to_nat boardY with
       | None => None
       | Some row => Some (<[Z.to_nat boardY := <[Z.to_nat boardX := 2]> row]> b)
       end
  else Some b.

(** The inner loop of [renderBoard] over the cells of shape row [y]. *)
Fixpoint drawCells (b : Board) (pos : Position) (yi xi : nat) (cells : list Z) : option Board :=
  match cells with
  | [] => Some b
  | v :: rest =>
      b1 ← (if truthy v then drawCell b (y pos + Z.of_nat yi) (x pos + Z.of_nat xi) else Some b);
      drawCells b1 pos yi (S xi) rest
  end.

(** The outer loop of [renderBoard] over the shape rows. *)
Fixpoint drawRows (b : Board) (pos : Position) (yi : nat) (rows : list (list Z)) : option Board :=
  match rows with
  | [] => Some b
  | row :: rest =>
      b1 ← drawCells b pos yi 0 row;
      drawRows b1 pos (S yi) rest
  end.

(** The [displayBoard] that [renderBoard] turns into JSX: the board with the
    cells of the current piece set to 2. *)
Definition displayBoard (s : GameState) : option Board :=
  match currentPiece s with
  | None => Some (board s)
  | Some cp => drawRows (board s) (position cp) 0 (shape cp)
  end.

(** The state the [useState] hooks start from, before the initialising
    effect draws a first piece. *)
Definition initialState : GameState := mkState EMPTY_BOARD None 0 0 1 false false.

(** Every set cell of the piece's shape maps into columns [[0, BOARD_WIDTH)]
    and rows below [BOARD_HEIGHT]. *)
Definition piece_in_bounds (p : Piece) : Prop :=
  forall yi xi row v, shape p !! yi = Some row -> row !! xi = Some v -> v <> 0 ->
    0 <= x (position p) + Z.of_nat xi < BOARD_WIDTH /\
    y (position p) + Z.of_nat yi < BOARD_HEIGHT.

(** Every board cell is 0 or 1. *)
Definition cells01 (b : Board) : Prop := Forall (Forall (fun v => v = 0 \/ v = 1)) b.

(** The current piece, if any, lies in the board's columns and above its
    bottom, and its shape is a non-empty square matrix. *)
Definition piece_ok (s : GameState) : Prop :=
  forall p, currentPiece s = Some p ->
    piece_in_bounds p /\ exists n, (0 < n)%nat /\ is_matrix n n (shape p).

(** What holds of every state the component reaches from [initialState] or
    [startNewGame]. *)
Definition reachable_inv (s : GameState) : Prop :=
  wf_board (board s) /\ cells01 (board s) /\
  0 <= lines s /\ 0 <= score s /\ level s = Z.div (lines s) 10 + 1 /\ piece_ok s.

(** What a trigger other than New Game keeps, before the level effect. *)
Definition trigger_ok (s s' : GameState) : Prop :=
  wf_board (board s') /\ cells01 (board s') /\
  lines s <= lines s' /\ score s <= score s' /\ level s' = level s /\ piece_ok s'.

(** The effect [if (!currentPiece && !gameOver) setCurrentPiece(createRandomPiece())],
    which runs after a render; it draws the first piece of the session. *)
Definition initEffect (s : GameState) (t : TetrominoType) : GameState :=
  match currentPiece s with
  | None => if gameOver s then s else setCurrentPiece (Some (createRandomPiece t)) s
  | Some _ => s
  end.

(** A session of the component: the initialising effect on the first
    render, then one trigger after another, each followed by the effects
    ([t] is the outcome of [Math.random] for that trigger). *)
Fixpoint run (s : GameState) (trace : list (TetrominoType * Event)) : option GameState :=
  match trace with
  | [] => Some s
  | (t, ev) :: rest =>
      s' ← step s t ev;
      run (initEffect s' t) rest
  end.

(** [b'] is [b] with the cells of [hit] (inside the board) set to 2, cells
    that already hold 2 keeping it. *)
Definition paints (b b' : Board) (hit : Z -> Z -> Prop) : Prop :=
  forall r c, 0 <= r < BOARD_HEIGHT -> 0 <= c < BOARD_WIDTH ->
    (cell b r c = 2 -> cell b' r c = 2) /\
    (hit r c -> cell b' r c = 2) /\
    (~ hit r c -> cell b' r c = cell b r c).

(** The O piece against the left wall, on an otherwise empty board. *)
Definition o_left_state : GameState :=
  setCurrentPiece (Some (mkPiece (tetromino_shape TO) (tetromino_color TO) (mkPosition 0 5)))
    initialState.

(** The O piece against the right wall. *)
Definition o_right_state : GameState :=
  setCurrentPiece (Some (mkPiece (tetromino_shape TO) (tetromino_color TO) (mkPosition 8 5)))
    initialState.

(** The board whose bottom row is complete, as the landing in [gap_state]
    leaves it. *)
Definition full_bottom_board : Board := replicate 19 empty_row ++ [replicate 10 1].

(** ** Lemmas about the game state machine *)

(** C9: while the game is paused, [movePieceDown] (the interval tick and the
    soft drop) returns the state unchanged: board, piece, score, lines,
    level and flags. *)
Theorem movePieceDown_paused_noop (s : GameState) (t : TetrominoType) :
  isPaused s = true -> movePieceDown s t = Some s.
Proof.
  intros Hp. unfold movePieceDown.
  destruct (currentPiece s); [|reflexivity].
  rewrite Hp, orb_true_r. reflexivity.
Qed.

Lemma movePieceDown_paused_noop_witness :
  isPaused paused_state = true /\ movePieceDown paused_state TI = Some paused_state.
Proof. split; [reflexivity | apply movePieceDown_paused_noop; reflexivity]. Defined.

(** C10: with no current piece, or after game over, [movePieceDown] is a
    no-op: no merge, no line clear, no score or lines update, no spawn; the
    state is returned unchanged. *)
Theorem movePieceDown_inactive_noop (s : GameState) (t : TetrominoType) :
  currentPiece s = None \/ gameOver s = true -> movePieceDown s t = Some s.
Proof.
  intros [Hc | Hg]; unfold movePieceDown.
  - rewrite Hc. reflexivity.
  - destruct (currentPiece s); [|reflexivity]. rewrite Hg. reflexivity.
Qed.

Lemma movePieceDown_inactive_noop_witness :
  (currentPiece (setGameOver true stacked_state) = None \/
   gameOver (setGameOver true stacked_state) = true) /\
  movePieceDown (setGameOver true stacked_state) TL = Some (setGameOver true stacked_state).
Proof. split; [right; reflexivity | apply movePieceDown_inactive_noop; right; reflexivity]. Defined.

(** C7: the pause key does not unpause: in a paused game with a piece on
    the board, pressing P (or p) returns the state unchanged, still paused,
    because [handleKeyPress] returns early on [isPaused]; the sibling
    Pause/Resume button does flip the flag in that state. *)
Theorem pause_key_ignored_while_paused :
  handleKeyPress paused_state TO "p"%string = Some paused_state /\
  handleKeyPress paused_state TO "P"%string = Some paused_state /\
  isPaused paused_state = true /\
  isPaused (pauseButton paused_state) = false.
Proof. repeat split; reflexivity. Qed.

(** C8: after the landing of the tenth O piece on [stacked_board], the new
    O piece collides with the landed cells, yet [movePieceDown] installs it
    as the current piece and does not end the game: the spawn check reads
    the board of the render, from before the landing. *)
Theorem spawn_check_reads_stale_board :
  exists s', movePieceDown stacked_state TO = Some s' /\
    currentPiece s' = Some (createRandomPiece TO) /\
    gameOver s' = false /\
    isValidPosition (board s') (createRandomPiece TO) (position (createRandomPiece TO)) None = false.
Proof. eexists. split; [vm_compute; reflexivity | vm_compute; auto]. Qed.

(** C4: at a landing (the piece cannot move down one row), when the merged
    board clears [n] rows, the score grows by exactly [n * 100 * level],
    with the level of the state before the clear, and [lines] by [n]. *)
Theorem landing_score_lines (s : GameState) (t : TetrominoType) (cp : Piece)
    (newBoard clearedBoard : Board) (n : Z) :
  currentPiece s = Some cp -> gameOver s = false -> isPaused s = false ->
  isValidPosition (board s) cp (mkPosition (x (position cp)) (y (position cp) + 1)) None = false ->
  placePiece (board s) cp = Some newBoard ->
  clearLines newBoard = (clearedBoard, n) ->
  exists s', movePieceDown s t = Some s' /\
    board s' = clearedBoard /\
    score s' = score s + n * 100 * level s /\
    lines s' = lines s + n.
Proof.
  intros Hc Hg Hp Hv Hpl Hcl. unfold movePieceDown.
  rewrite Hc, Hg, Hp, Hv. cbn [orb negb]. rewrite Hpl. cbn [mbind option_bind]. rewrite Hcl.
  destruct (isValidPosition (board s) (createRandomPiece t)
              (position (createRandomPiece t)) None); simpl;
    eexists; repeat split.
Qed.

Lemma landing_score_lines_witness :
  exists s', movePieceDown gap_state TT = Some s' /\
    board s' = fst (clearLines (replicate 19 empty_row ++ [replicate 10 1])) /\
    score s' = score gap_state + 1 * 100 * level gap_state /\
    lines s' = lines gap_state + 1.
Proof.
  apply (landing_score_lines gap_state TT
           (mkPiece (tetromino_shape TI) (tetromino_color TI) (mkPosition 6 18))
           (replicate 19 empty_row ++ [replicate 10 1])
           (fst (clearLines (replicate 19 empty_row ++ [replicate 10 1]))) 1);
    vm_compute; reflexivity.
Defined.

(** ** Board sizes through a landing *)

Lemma setCell_length (b b' : Board) (r c : Z) :
  setCell b r c = Some b' -> length b' = length b.
Proof.
  unfold setCell. destruct (b !! Z.to_nat r) as [row|]; [|discriminate].
  destruct (c <? 0); [congruence|].
  destruct (Z.to_nat c <? length row)%nat; [|discriminate].
  intros [= <-]. apply length_insert.
Qed.

Lemma placeCells_length (b b' : Board) (pos : Position) (yi xi : nat) (cells : list Z) :
  placeCells b pos yi xi cells = Some b' -> length b' = length b.
Proof.
  revert b xi. induction cells as [|v rest IH]; intros b xi H; simpl in H.
  - congruence.
  - destruct (truthy v && _).
    + destruct (setCell b _ _) as [b1|] eqn:Hs; simpl in H; [|discriminate].
      rewrite (IH _ _ H). eapply setCell_length; eauto.
    + simpl in H. exact (IH _ _ H).
Qed.

Lemma placeRows_length (b b' : Board) (pos : Position) (yi : nat) (rows : list (list Z)) :
  placeRows b pos yi rows = Some b' -> length b' = length b.
Proof.
  revert b yi. induction rows as [|row rest IH]; intros b yi H; simpl in H.
  - congruence.
  - destruct (placeCells b pos yi 0 row) as [b1|] eqn:Hc; simpl in H; [|discriminate].
    rewrite (IH _ _ H). eapply placeCells_length; eauto.
Qed.

Lemma placePiece_length (b b' : Board) (p : Piece) :
  placePiece b p = Some b' -> length b' = length b.
Proof. apply placeRows_length. Qed.

Lemma unshift_rows_app (k : nat) (b : Board) :
  unshift_rows k b = replicate k empty_row ++ b.
Proof.
  revert b. induction k as [|k IH]; intros b; simpl; [reflexivity|].
  rewrite IH. change (empty_row :: b) with ([empty_row] ++ b).
  rewrite app_assoc, <- replicate_S_end. reflexivity.
Qed.

Lemma clearLines_count_nonneg (b : Board) :
  (length b <= Z.to_nat BOARD_HEIGHT)%nat -> 0 <= snd (clearLines b).
Proof.
  intros H. unfold clearLines. simpl.
  pose proof (filter_length_le has_empty b). unfold BOARD_HEIGHT in *. lia.
Qed.

Lemma movePieceDown_frame (s s' : GameState) (t : TetrominoType) :
  length (board s) = Z.to_nat BOARD_HEIGHT ->
  movePieceDown s t = Some s' -> level s' = level s /\ lines s <= lines s'.
Proof.
  intros Hlen H. unfold movePieceDown in H.
  destruct (currentPiece s) as [cp|]; [|injection H as <-; lia].
  destruct (gameOver s || isPaused s); [injection H as <-; lia|].
  destruct (isValidPosition _ _ _ _); [injection H as <-; simpl; lia|].
  destruct (placePiece (board s) cp) as [nb|] eqn:Hpl; cbn [mbind option_bind] in H; [|discriminate].
  destruct (clearLines nb) as [cb n] eqn:Hcl.
  assert (0 <= n).
  { change n with (snd (cb, n)). rewrite <- Hcl. apply clearLines_count_nonneg.
    rewrite (placePiece_length _ _ _ Hpl). lia. }
  destruct (negb _); injection H as <-; simpl; lia.
Qed.

Lemma handleKeyPress_frame (s s' : GameState) (t : TetrominoType) (key : string) :
  length (board s) = Z.to_nat BOARD_HEIGHT ->
  handleKeyPress s t key = Some s' -> level s' = level s /\ lines s <= lines s'.
Proof.
  intros Hlen H. unfold handleKeyPress in H.
  destruct (currentPiece s) as [cp|]; [|injection H as <-; lia].
  destruct (gameOver s || isPaused s); [injection H as <-; lia|].
  repeat match type of H with
  | (if ?c then _ else _) = _ => destruct c
  end;
  try (injection H as <-; simpl; lia).
  all: try solve [eapply movePieceDown_frame; eauto].
  all: destruct (rotatePiece (shape cp)); simpl in H; [|discriminate].
  all: destruct (isValidPosition _ _ _ _); injection H as <-; simpl; lia.
Qed.

(** C5: starting from a state where [level = floor(lines / 10) + 1] (as
    after [startNewGame]), every trigger followed by the level effect keeps
    [level = floor(lines / 10) + 1]; within a session (no New Game click)
    the level never decreases. *)
Theorem step_level_invariant (s s' : GameState) (t : TetrominoType) (ev : Event) :
  length (board s) = Z.to_nat BOARD_HEIGHT ->
  level s = Z.div (lines s) 10 + 1 ->
  step s t ev = Some s' ->
  level s' = Z.div (lines s') 10 + 1 /\ (ev <> NewGameClick -> level s <= level s').
Proof.
  intros Hlen Hinv H. unfold step in H.
  assert (Hframe : ev <> NewGameClick -> forall s1,
            match ev with
            | Tick => movePieceDown s t
            | KeyDown k => handleKeyPress s t k
            | PauseClick => Some (pauseButton s)
            | NewGameClick => Some (startNewGame t)
            end = Some s1 -> level s1 = level s /\ lines s <= lines s1).
  { intros Hev s1 H1. destruct ev.
    - eapply movePieceDown_frame; eauto.
    - eapply handleKeyPress_frame; eauto.
    - injection H1 as <-. unfold pauseButton. destruct (gameOver s); simpl; lia.
    - congruence. }
  destruct (match ev with
            | Tick => movePieceDown s t
            | KeyDown k => handleKeyPress s t k
            | PauseClick => Some (pauseButton s)
            | NewGameClick => Some (startNewGame t)
            end) as [s1|] eqn:E; simpl in H; [|discriminate].
  injection H as <-. unfold levelEffect.
  destruct (Z.eqb_spec (lines s1) (lines s)) as [Heq|Hne].
  - destruct ev; [| | |injection E as <-; split; [reflexivity | congruence]].
    all: destruct (Hframe ltac:(discriminate) s1 eq_refl) as [Hl _].
    all: rewrite Hl, Heq; split; [assumption | lia].
  - simpl. split; [reflexivity|]. intros Hev.
    destruct (Hframe Hev s1 eq_refl) as [_ Hle]. rewrite Hinv.
    pose proof (Z.div_le_mono (lines s) (lines s1) 10 ltac:(lia) Hle). lia.
Qed.

Lemma step_level_invariant_witness :
  exists s', step gap_state TT Tick = Some s' /\
    level s' = Z.div (lines s') 10 + 1 /\ (Tick <> NewGameClick -> level gap_state <= level s').
Proof.
  eexists. split; [vm_compute; reflexivity|].
  apply (step_level_invariant gap_state _ TT Tick); vm_compute; reflexivity.
Defined.

(** ** clearLines *)

Lemma has_empty_not_complete (row : list Z) : has_empty row = negb (row_complete row).
Proof.
  induction row as [|c row IH]; [reflexivity|].
  unfold has_empty, row_complete, truthy in *. simpl. rewrite IH.
  destruct (c =? 0); reflexivity.
Qed.

(** C1: on a board of [BOARD_HEIGHT] rows of [BOARD_WIDTH] cells,
    [clearLines] returns [n] fully empty rows followed by the rows that
    have an empty cell, in their order, where [n] is the number of complete
    rows; the result has [BOARD_HEIGHT] rows and [0 <= n <= BOARD_HEIGHT]. *)
Theorem clearLines_spec (b : Board) :
  wf_board b ->
  let '(newBoard, n) := clearLines b in
  newBoard = replicate (Z.to_nat n) empty_row
             ++ List.filter (fun row => negb (row_complete row)) b /\
  n = Z.of_nat (length (List.filter row_complete b)) /\
  length newBoard = Z.to_nat BOARD_HEIGHT /\
  0 <= n <= BOARD_HEIGHT.
Proof.
  intros [Hlen _]. unfold clearLines.
  assert (Hf : List.filter has_empty b = List.filter (fun row => negb (row_complete row)) b).
  { apply filter_ext. apply has_empty_not_complete. }
  rewrite Hf. pose proof (filter_length row_complete b) as Hl.
  unfold BOARD_HEIGHT in *. simpl in Hlen.
  rewrite unshift_rows_app.
  repeat split.
  - f_equal. f_equal. lia.
  - lia.
  - rewrite length_app, length_replicate. lia.
  - lia.
  - lia.
Qed.

Lemma clearLines_spec_witness :
  wf_board gap_board /\
  (let '(newBoard, n) := clearLines gap_board in
   newBoard = replicate (Z.to_nat n) empty_row
              ++ List.filter (fun row => negb (row_complete row)) gap_board /\
   n = Z.of_nat (length (List.filter row_complete gap_board)) /\
   length newBoard = Z.to_nat BOARD_HEIGHT /\
   0 <= n <= BOARD_HEIGHT).
Proof.
  assert (Hwf : wf_board gap_board) by (split; [reflexivity | repeat constructor]).
  split; [exact Hwf | apply (clearLines_spec gap_board Hwf)].
Defined.

(** ** isValidPosition *)

Lemma out_of_bounds_false (newX newY : Z) :
  ((newX <? 0) || (newX >=? BOARD_WIDTH) || (newY >=? BOARD_HEIGHT)) = false <->
  0 <= newX < BOARD_WIDTH /\ newY < BOARD_HEIGHT.
Proof.
  rewrite !orb_false_iff, Z.ltb_nlt, !Z.geb_leb, !Z.leb_nle. lia.
Qed.

Lemma filled_false (board : Board) (newX newY : Z) :
  ((newY >=? 0) && truthy (cell board newY newX)) = false <->
  (0 <= newY -> cell board newY newX = 0).
Proof.
  unfold truthy. rewrite andb_false_iff, negb_false_iff, Z.geb_leb, Z.leb_nle, Z.eqb_eq.
  split; [intros [H|H] Hy; [lia | exact H] |].
  intros H. destruct (Z_le_gt_dec 0 newY); [right; auto | left; lia].
Qed.

Lemma validCells_spec (board : Board) (pos : Position) (yi xi : nat) (cells : list Z) :
  validCells board pos yi xi cells = true <->
  (forall j v, cells !! j = Some v -> v <> 0 ->
     target_ok board (x pos + Z.of_nat (xi + j)) (y pos + Z.of_nat yi)).
Proof.
  revert xi. induction cells as [|v rest IH]; intros xi; simpl.
  - split; [intros _ j w Hj; discriminate Hj | reflexivity].
  - unfold truthy at 1. destruct (Z.eqb_spec v 0) as [Hv|Hv]; simpl.
    + rewrite IH. split.
      * intros H [|j] w Hj Hw; simpl in Hj; [congruence|].
        replace (xi + S j)%nat with (S xi + j)%nat by lia. exact (H j w Hj Hw).
      * intros H j w Hj Hw. replace (S xi + j)%nat with (xi + S j)%nat by lia.
        exact (H (S j) w Hj Hw).
    + destruct ((x pos + Z.of_nat xi <? 0) || (x pos + Z.of_nat xi >=? BOARD_WIDTH)
                || (y pos + Z.of_nat yi >=? BOARD_HEIGHT)) eqn:Eb.
      { split; [discriminate|]. intros H.
        destruct (H 0%nat v eq_refl Hv) as [Hx [Hy _]]. rewrite Nat.add_0_r in Hx.
        assert (Hf : false = true); [|discriminate].
        rewrite <- Eb. symmetry. apply out_of_bounds_false. lia. }
      destruct ((y pos + Z.of_nat yi >=? 0)
                && truthy (cell board (y pos + Z.of_nat yi) (x pos + Z.of_nat xi))) eqn:Ef.
      { split; [discriminate|]. intros H.
        destruct (H 0%nat v eq_refl Hv) as [_ [_ Hc]]. rewrite Nat.add_0_r in Hc.
        assert (Hf : false = true); [|discriminate].
        rewrite <- Ef. symmetry. apply filled_false. exact Hc. }
      rewrite IH. split.
      * intros H [|j] w Hj Hw; simpl in Hj.
        -- injection Hj as <-. rewrite Nat.add_0_r.
           rewrite out_of_bounds_false in Eb. rewrite filled_false in Ef.
           unfold target_ok. tauto.
        -- replace (xi + S j)%nat with (S xi + j)%nat by lia. exact (H j w Hj Hw).
      * intros H j w Hj Hw. replace (S xi + j)%nat with (xi + S j)%nat by lia.
        exact (H (S j) w Hj Hw).
Qed.

Lemma validRows_spec (board : Board) (pos : Position) (yi : nat) (rows : list (list Z)) :
  validRows board pos yi rows = true <->
  (forall i row j v, rows !! i = Some row -> row !! j = Some v -> v <> 0 ->
     target_ok board (x pos + Z.of_nat j) (y pos + Z.of_nat (yi + i))).
Proof.
  revert yi. induction rows as [|row rest IH]; intros yi; simpl.
  - split; [intros _ i r j v Hi; discriminate Hi | reflexivity].
  - rewrite andb_true_iff, validCells_spec, IH. split.
    + intros [Hc Hr] [|i] r j v Hi Hj Hv; simpl in Hi.
      * injection Hi as <-. rewrite Nat.add_0_r. exact (Hc j v Hj Hv).
      * replace (yi + S i)%nat with (S yi + i)%nat by lia. exact (Hr i r j v Hi Hj Hv).
    + intros H. split.
      * intros j v Hj Hv. rewrite <- (Nat.add_0_r yi). exact (H 0%nat row j v eq_refl Hj Hv).
      * intros i r j v Hi Hj Hv. replace (S yi + i)%nat with (yi + S i)%nat by lia.
        exact (H (S i) r j v Hi Hj Hv).
Qed.

(** C2: on a board of [BOARD_HEIGHT] rows of [BOARD_WIDTH] cells,
    [isValidPosition] (a pure function of its arguments) returns [true] iff
    every set cell [(yi, xi)] of the shape it checks maps to a column in
    [[0, BOARD_WIDTH)], to a row below [BOARD_HEIGHT] (negative rows
    allowed), and, when the row is non-negative, to an empty board cell. *)
Theorem isValidPosition_spec (board : Board) (piece : Piece) (newPosition : Position)
    (newShape : option (list (list Z))) :
  wf_board board ->
  let sh := match newShape with Some s => s | None => shape piece end in
  isValidPosition board piece newPosition newShape = true <->
  (forall yi xi row v, sh !! yi = Some row -> row !! xi = Some v -> v <> 0 ->
     0 <= x newPosition + Z.of_nat xi < BOARD_WIDTH /\
     y newPosition + Z.of_nat yi < BOARD_HEIGHT /\
     (0 <= y newPosition + Z.of_nat yi ->
      cell board (y newPosition + Z.of_nat yi) (x newPosition + Z.of_nat xi) = 0)).
Proof.
  intros _ sh. unfold isValidPosition. fold sh.
  rewrite validRows_spec. unfold target_ok. simpl. split.
  - intros H yi xi row v. exact (H yi row xi v).
  - intros H i row j v. exact (H i j row v).
Qed.

Lemma isValidPosition_spec_witness :
  wf_board EMPTY_BOARD /\
  (isValidPosition EMPTY_BOARD (createRandomPiece TT) (mkPosition 4 (-1)) None = true <->
   (forall yi xi row v, shape (createRandomPiece TT) !! yi = Some row -> row !! xi = Some v -> v <> 0 ->
      0 <= 4 + Z.of_nat xi < BOARD_WIDTH /\
      -1 + Z.of_nat yi < BOARD_HEIGHT /\
      (0 <= -1 + Z.of_nat yi -> cell EMPTY_BOARD (-1 + Z.of_nat yi) (4 + Z.of_nat xi) = 0))).
Proof.
  assert (Hwf : wf_board EMPTY_BOARD) by (split; [reflexivity | repeat constructor]).
  split; [exact Hwf|].
  exact (isValidPosition_spec EMPTY_BOARD (createRandomPiece TT) (mkPosition 4 (-1)) None Hwf).
Defined.

(** ** rotatePiece *)

Lemma rotatePiece_spec (R C : nat) (m : list (list Z)) :
  is_matrix R C m -> (0 < R)%nat ->
  exists m', rotatePiece m = Some m' /\ is_matrix C R m' /\
    forall i j, (i < C)%nat -> (j < R)%nat -> entry m' i j = entry m (R - 1 - j) i.
Proof.
  intros [Hlen Hrows] HR.
  destruct m as [|row0 rest] eqn:Em; [simpl in Hlen; lia|].
  rewrite <- Em in *.
  assert (H0 : length row0 = C).
  { apply (Forall_lookup_1 _ m 0 row0 Hrows). rewrite Em. reflexivity. }
  assert (Erot : rotatePiece m =
    Some (imap (fun index _ => reverse ((fun row => default 0 (row !! index)) <$> m)) row0))
    by (rewrite Em; reflexivity).
  eexists. split; [exact Erot|]. split; [split|].
  - rewrite length_imap. exact H0.
  - apply Forall_lookup. intros i r Hi.
    apply list_lookup_imap_Some in Hi as [y0 [_ ->]].
    rewrite length_reverse, length_fmap. exact Hlen.
  - intros i j Hi Hj. unfold entry.
    rewrite list_lookup_imap.
    destruct (lookup_lt_is_Some_2 row0 i ltac:(lia)) as [y0 Hy0]. rewrite Hy0. simpl.
    rewrite reverse_lookup by (rewrite length_fmap; lia).
    rewrite list_lookup_fmap, length_fmap, Hlen.
    replace (R - S j)%nat with (R - 1 - j)%nat by lia.
    destruct (lookup_lt_is_Some_2 m (R - 1 - j) ltac:(lia)) as [r Hr]. rewrite Hr. simpl.
    pose proof (Forall_lookup_1 _ _ _ _ Hrows Hr) as Hrl.
    simpl in Hrl. destruct (lookup_lt_is_Some_2 r i ltac:(lia)) as [z Hz]. rewrite Hz. reflexivity.
Qed.





(** ** placePiece *)

Lemma setCell_spec (b : Board) (R C : Z) :
  wf_board b -> 0 <= R < BOARD_HEIGHT -> C < BOARD_WIDTH ->
  exists b', setCell b R C = Some b' /\ wf_board b' /\
    forall r c, 0 <= r -> 0 <= c ->
      cell b' r c = if (R =? r) && (C =? c) then 1 else cell b r c.
Proof.
  intros [Hlen Hrows] HR HC. unfold setCell.
  destruct (lookup_lt_is_Some_2 b (Z.to_nat R) ltac:(unfold BOARD_HEIGHT in *; lia))
    as [row Hrow].
  rewrite Hrow.
  pose proof (Forall_lookup_1 _ _ _ _ Hrows Hrow) as Hrl. simpl in Hrl.
  destruct (Z.ltb_spec C 0) as [Hneg|Hnn].
  - eexists. split; [reflexivity|]. split; [split; assumption|].
    intros r c Hr Hc. destruct (Z.eqb_spec C c); [lia|]. rewrite andb_false_r. reflexivity.
  - assert (Hlt : (Z.to_nat C < length row)%nat) by (unfold BOARD_WIDTH in *; lia).
    rewrite (proj2 (Nat.ltb_lt _ _) Hlt).
    eexists. split; [reflexivity|]. split.
    + split; [rewrite length_insert; assumption|].
      apply Forall_insert; [assumption|]. simpl. rewrite length_insert. assumption.
    + intros r c Hr Hc. unfold cell.
      destruct (Z.eqb_spec R r) as [<-|HRr]; simpl.
      * rewrite list_lookup_insert_eq by (unfold BOARD_HEIGHT in *; lia).
        destruct (Z.eqb_spec C c) as [<-|HCc].
        -- rewrite list_lookup_insert_eq by lia. reflexivity.
        -- rewrite list_lookup_insert_ne by lia. rewrite Hrow. reflexivity.
      * rewrite list_lookup_insert_ne by lia. reflexivity.
Qed.

Lemma placeCells_spec (b : Board) (pos : Position) (yi xi : nat) (cells : list Z) :
  wf_board b ->
  (forall j v, cells !! j = Some v -> v <> 0 ->
     y pos + Z.of_nat yi < BOARD_HEIGHT /\ x pos + Z.of_nat (xi + j) < BOARD_WIDTH) ->
  exists b', placeCells b pos yi xi cells = Some b' /\ wf_board b' /\
    marks b b' (row_hits pos yi xi cells).
Proof.
  revert b xi. induction cells as [|v rest IH]; intros b xi Hwf Hfit.
  - exists b. split; [reflexivity|]. split; [exact Hwf|].
    intros r c _ _. split; [auto|]. split; [|auto].
    intros (j & w & Hj & _). discriminate Hj.
  - assert (Hfit' : forall j w, rest !! j = Some w -> w <> 0 ->
              y pos + Z.of_nat yi < BOARD_HEIGHT /\ x pos + Z.of_nat (S xi + j) < BOARD_WIDTH).
    { intros j w Hj Hw. replace (S xi + j)%nat with (xi + S j)%nat by lia.
      exact (Hfit (S j) w Hj Hw). }
    assert (Hshift : forall r c, row_hits pos yi (S xi) rest r c ->
              row_hits pos yi xi (v :: rest) r c).
    { intros r c (j & w & Hj & Hw & Hr & Hc). exists (S j), w.
      replace (xi + S j)%nat with (S xi + j)%nat by lia. auto. }
    cbn [placeCells].
    destruct (truthy v && (y pos + Z.of_nat yi >=? 0)) eqn:Ew.
    + apply andb_true_iff in Ew as [Hv Hy]. unfold truthy in Hv.
      apply negb_true_iff, Z.eqb_neq in Hv. apply Z.geb_le in Hy.
      destruct (Hfit 0%nat v eq_refl Hv) as [HyH HxW]. rewrite Nat.add_0_r in HxW.
      destruct (setCell_spec b (y pos + Z.of_nat yi) (x pos + Z.of_nat xi) Hwf
                  ltac:(lia) HxW) as [b1 [Hs [Hwf1 Hc1]]].
      destruct (IH b1 (S xi) Hwf1 Hfit') as [b' [Hp [Hwf' Hm]]].
      exists b'. rewrite Hs. cbn [mbind option_bind]. split; [exact Hp|].
      split; [exact Hwf'|].
      intros r c Hr Hc. destruct (Hm r c Hr Hc) as (Hmono & Hhit & Hnot).
      split; [|split].
      * intros H1. apply Hmono. rewrite (Hc1 r c Hr Hc).
        destruct (_ && _); [reflexivity | exact H1].
      * intros ([|j] & w & Hj & Hw & Hyr & Hxc).
        -- apply Hmono. rewrite (Hc1 r c Hr Hc). rewrite Nat.add_0_r in Hxc.
           rewrite Hyr, Hxc, !Z.eqb_refl. reflexivity.
        -- apply Hhit. exists j, w.
           replace (S xi + j)%nat with (xi + S j)%nat by lia. auto.
      * intros Hn. rewrite Hnot by (intros H; apply Hn, Hshift, H).
        rewrite (Hc1 r c Hr Hc).
        destruct (Z.eqb_spec (y pos + Z.of_nat yi) r) as [Hyr|];
          destruct (Z.eqb_spec (x pos + Z.of_nat xi) c) as [Hxc|]; simpl; try reflexivity.
        exfalso. apply Hn. exists 0%nat, v. rewrite Nat.add_0_r. auto.
    + destruct (IH b (S xi) Hwf Hfit') as [b' [Hp [Hwf' Hm]]].
      exists b'. cbn [mbind option_bind]. split; [exact Hp|]. split; [exact Hwf'|].
      intros r c Hr Hc. destruct (Hm r c Hr Hc) as (Hmono & Hhit & Hnot).
      split; [exact Hmono|]. split.
      * intros ([|j] & w & Hj & Hw & Hyr & Hxc).
        -- simpl in Hj. injection Hj as <-. exfalso.
           unfold truthy in Ew. apply Z.eqb_neq in Hw. rewrite Hw in Ew. simpl in Ew.
           rewrite Z.geb_leb, Z.leb_gt in Ew. lia.
        -- apply Hhit. exists j, w.
           replace (S xi + j)%nat with (xi + S j)%nat by lia. auto.
      * intros Hn. apply Hnot. intros H. apply Hn, Hshift, H.
Qed.

Lemma placeRows_spec (b : Board) (pos : Position) (yi : nat) (rows : list (list Z)) :
  wf_board b ->
  (forall i row j v, rows !! i = Some row -> row !! j = Some v -> v <> 0 ->
     y pos + Z.of_nat (yi + i) < BOARD_HEIGHT /\ x pos + Z.of_nat j < BOARD_WIDTH) ->
  exists b', placeRows b pos yi rows = Some b' /\ wf_board b' /\
    marks b b' (rows_hits pos yi rows).
Proof.
  revert b yi. induction rows as [|row rest IH]; intros b yi Hwf Hfit.
  - exists b. split; [reflexivity|]. split; [exact Hwf|].
    intros r c _ _. split; [auto|]. split; [|auto].
    intros (i & row & j & w & Hi & _). discriminate Hi.
  - destruct (placeCells_spec b pos yi 0 row Hwf) as [b1 [Hc [Hwf1 Hm1]]].
    { intros j v Hj Hv. rewrite <- (Nat.add_0_r yi). exact (Hfit 0%nat row j v eq_refl Hj Hv). }
    destruct (IH b1 (S yi) Hwf1) as [b' [Hp [Hwf' Hm]]].
    { intros i r j v Hi Hj Hv. replace (S yi + i)%nat with (yi + S i)%nat by lia.
      exact (Hfit (S i) r j v Hi Hj Hv). }
    exists b'. cbn [placeRows]. rewrite Hc. cbn [mbind option_bind].
    split; [exact Hp|]. split; [exact Hwf'|].
    intros r c Hr Hcc.
    destruct (Hm1 r c Hr Hcc) as (Hmono1 & Hhit1 & Hnot1).
    destruct (Hm r c Hr Hcc) as (Hmono & Hhit & Hnot).
    split; [auto|]. split.
    + intros ([|i] & rw & j & w & Hi & Hj & Hw & Hyr & Hxc).
      * simpl in Hi. injection Hi as <-. apply Hmono, Hhit1.
        exists j, w. rewrite Nat.add_0_r in Hyr. auto.
      * apply Hhit. exists i, rw, j, w.
        replace (S yi + i)%nat with (yi + S i)%nat by lia. auto.
    + intros Hn. rewrite Hnot, Hnot1; [reflexivity| |].
      * intros (j & w & Hj & Hw & Hyr & Hxc). apply Hn. exists 0%nat, row, j, w.
        rewrite Nat.add_0_r. auto.
      * intros (i & rw & j & w & Hi & Hj & Hw & Hyr & Hxc). apply Hn. exists (S i), rw, j, w.
        replace (yi + S i)%nat with (S yi + i)%nat by lia. auto.
Qed.







(** ** Reachable states *)

Lemma valid_in_bounds (b : Board) (pos : Position) (sh : list (list Z)) :
  validRows b pos 0 sh = true ->
  forall yi xi row v, sh !! yi = Some row -> row !! xi = Some v -> v <> 0 ->
    0 <= x pos + Z.of_nat xi < BOARD_WIDTH /\ y pos + Z.of_nat yi < BOARD_HEIGHT.
Proof.
  rewrite validRows_spec. intros H yi xi row v Hy Hx Hv.
  destruct (H yi row xi v Hy Hx Hv) as [Hb [Hh _]]. split; assumption.
Qed.

Lemma setCell_01 (b b' : Board) (r c : Z) :
  cells01 b -> setCell b r c = Some b' -> cells01 b'.
Proof.
  intros H01. unfold setCell. destruct (b !! Z.to_nat r) as [row|] eqn:Hrow; [|discriminate].
  destruct (c <? 0); [congruence|].
  destruct (Z.to_nat c <? length row)%nat; [|discriminate].
  intros [= <-]. apply Forall_insert; [exact H01|].
  apply Forall_insert; [exact (Forall_lookup_1 _ _ _ _ H01 Hrow) | right; reflexivity].
Qed.

Lemma placeCells_01 (b b' : Board) (pos : Position) (yi xi : nat) (cells : list Z) :
  cells01 b -> placeCells b pos yi xi cells = Some b' -> cells01 b'.
Proof.
  revert b xi. induction cells as [|v rest IH]; intros b xi H01 H; simpl in H.
  - congruence.
  - destruct (truthy v && _).
    + destruct (setCell b _ _) as [b1|] eqn:Hs; simpl in H; [|discriminate].
      exact (IH _ _ (setCell_01 _ _ _ _ H01 Hs) H).
    + simpl in H. exact (IH _ _ H01 H).
Qed.

Lemma placeRows_01 (b b' : Board) (pos : Position) (yi : nat) (rows : list (list Z)) :
  cells01 b -> placeRows b pos yi rows = Some b' -> cells01 b'.
Proof.
  revert b yi. induction rows as [|row rest IH]; intros b yi H01 H; simpl in H.
  - congruence.
  - destruct (placeCells b pos yi 0 row) as [b1|] eqn:Hc; simpl in H; [|discriminate].
    exact (IH _ _ (placeCells_01 _ _ _ _ _ _ H01 Hc) H).
Qed.

Lemma Forall_filter_keep {A} (P : A -> Prop) (f : A -> bool) (l : list A) :
  Forall P l -> Forall P (List.filter f l).
Proof.
  induction 1 as [|a l Ha Hl IH]; simpl; [constructor|].
  destruct (f a); [constructor|]; assumption.
Qed.

Lemma clearLines_keeps (b : Board) :
  wf_board b -> cells01 b ->
  wf_board (fst (clearLines b)) /\ cells01 (fst (clearLines b)) /\ 0 <= snd (clearLines b).
Proof.
  intros [Hlen Hrows] H01. unfold clearLines. simpl. rewrite unshift_rows_app.
  pose proof (filter_length_le has_empty b) as Hle.
  unfold BOARD_HEIGHT in *. simpl in Hlen.
  split; [split|split]; unfold BOARD_HEIGHT, cells01 in *.
  - rewrite length_app, length_replicate. lia.
  - apply Forall_app. split.
    + apply Forall_replicate. reflexivity.
    + apply Forall_filter_keep. exact Hrows.
  - apply Forall_app. split.
    + apply Forall_replicate. unfold empty_row. apply Forall_replicate. left. reflexivity.
    + apply Forall_filter_keep. exact H01.
  - lia.
Qed.

Lemma spawn_valid_on_empty (t : TetrominoType) :
  isValidPosition EMPTY_BOARD (createRandomPiece t) (position (createRandomPiece t)) None = true.
Proof. destruct t; vm_compute; reflexivity. Qed.

Lemma tetromino_square (t : TetrominoType) :
  exists n, (0 < n)%nat /\ is_matrix n n (shape (createRandomPiece t)).
Proof.
  destruct t; [exists 4%nat | exists 2%nat | exists 3%nat | exists 3%nat
              | exists 3%nat | exists 3%nat | exists 3%nat];
    (split; [lia | split; [reflexivity | repeat constructor]]).
Qed.

(** Splits [trigger_ok] into its six parts and closes the easy ones. *)
Ltac split_trigger :=
  unfold trigger_ok;
  refine (conj _ (conj _ (conj _ (conj _ (conj _ _)))));
  cbn [board lines score level currentPiece setCurrentPiece setScore setLines
       setBoard setGameOver setIsPaused];
  try assumption; try lia.

Lemma movePieceDown_keeps (s : GameState) (t : TetrominoType) :
  reachable_inv s -> exists s', movePieceDown s t = Some s' /\ trigger_ok s s'.
Proof.
  intros (Hwf & H01 & Hl & Hsc & Hlv & Hpc). unfold movePieceDown.
  destruct (currentPiece s) as [cp|] eqn:Hc;
    [|exists s; split; [reflexivity|]; split_trigger].
  destruct (gameOver s || isPaused s);
    [exists s; split; [reflexivity|]; split_trigger|].
  destruct (Hpc cp Hc) as [Hin Hsq].
  destruct (isValidPosition _ _ _ _) eqn:Hv.
  - eexists. split; [reflexivity|]. split_trigger.
    intros p Hp. simpl in Hp. injection Hp as <-. split; [|exact Hsq].
    exact (valid_in_bounds _ _ _ Hv).
  - destruct (placeRows_spec (board s) (position cp) 0 (shape cp) Hwf) as [b1 [Hp [Hwf1 _]]].
    { intros i row j v Hi Hj Hv'. destruct (Hin i j row v Hi Hj Hv'). simpl. lia. }
    unfold placePiece. rewrite Hp. cbn [mbind option_bind].
    pose proof (placeRows_01 _ _ _ _ _ H01 Hp) as H011.
    destruct (clearLines b1) as [cb n] eqn:Hcl.
    pose proof (clearLines_keeps b1 Hwf1 H011) as (Hwfc & H01c & Hn).
    rewrite Hcl in Hwfc, H01c, Hn. simpl in Hwfc, H01c, Hn.
    assert (Hlev : 1 <= level s) by (rewrite Hlv; pose proof (Z.div_pos (lines s) 10); lia).
    assert (Hgain : 0 <= n * 100 * level s) by nia.
    destruct (isValidPosition (board s) (createRandomPiece t) _ None) eqn:Hnp; simpl.
    + eexists. split; [reflexivity|]. split_trigger.
      intros p Hp'. simpl in Hp'. injection Hp' as <-. split.
      * exact (valid_in_bounds _ _ _ Hnp).
      * apply tetromino_square.
    + eexists. split; [reflexivity|]. split_trigger.
Qed.

Lemma handleKeyPress_keeps (s : GameState) (t : TetrominoType) (key : string) :
  reachable_inv s -> exists s', handleKeyPress s t key = Some s' /\ trigger_ok s s'.
Proof.
  intros Hinv. pose proof Hinv as (Hwf & H01 & Hl & Hsc & Hlv & Hpc). unfold handleKeyPress.
  destruct (currentPiece s) as [cp|] eqn:Hc;
    [|exists s; split; [reflexivity|]; split_trigger].
  destruct (gameOver s || isPaused s);
    [exists s; split; [reflexivity|]; split_trigger|].
  destruct (Hpc cp Hc) as [Hin [n [Hn Hsq]]].
  assert (Hsame : trigger_ok s s) by split_trigger.
  destruct (String.eqb key "ArrowLeft"%string).
  { destruct (isValidPosition _ _ _ _) eqn:Hv; [|exists s; split; [reflexivity | exact Hsame]].
    eexists. split; [reflexivity|]. split_trigger.
    intros p Hp. simpl in Hp. injection Hp as <-. split; [exact (valid_in_bounds _ _ _ Hv)|].
    exists n. split; assumption. }
  destruct (String.eqb key "ArrowRight"%string).
  { destruct (isValidPosition _ _ _ _) eqn:Hv; [|exists s; split; [reflexivity | exact Hsame]].
    eexists. split; [reflexivity|]. split_trigger.
    intros p Hp. simpl in Hp. injection Hp as <-. split; [exact (valid_in_bounds _ _ _ Hv)|].
    exists n. split; assumption. }
  destruct (String.eqb key "ArrowDown"%string); [exact (movePieceDown_keeps s t Hinv)|].
  destruct (String.eqb key "ArrowUp"%string || String.eqb key " "%string).
  { destruct (rotatePiece_spec n n (shape cp) Hsq Hn) as [m' [Hr [Hsq' _]]].
    rewrite Hr. cbn [mbind option_bind].
    destruct (isValidPosition _ _ _ _) eqn:Hv; [|exists s; split; [reflexivity | exact Hsame]].
    eexists. split; [reflexivity|]. split_trigger.
    intros p Hp. simpl in Hp. injection Hp as <-. split; [exact (valid_in_bounds _ _ _ Hv)|].
    exists n. split; assumption. }
  destruct (String.eqb key "p"%string || String.eqb key "P"%string);
    [|exists s; split; [reflexivity | exact Hsame]].
  eexists. split; [reflexivity|]. split_trigger.
Qed.

Lemma empty_board_ok : wf_board EMPTY_BOARD /\ cells01 EMPTY_BOARD.
Proof.
  split; [split; [reflexivity | repeat constructor]|].
  apply Forall_replicate. unfold empty_row. apply Forall_replicate. left. reflexivity.
Qed.

Lemma spawn_piece_ok (t : TetrominoType) :
  piece_in_bounds (createRandomPiece t) /\
  exists n, (0 < n)%nat /\ is_matrix n n (shape (createRandomPiece t)).
Proof.
  split; [exact (valid_in_bounds _ _ _ (spawn_valid_on_empty t)) | apply tetromino_square].
Qed.

Lemma startNewGame_reach (t : TetrominoType) : reachable_inv (startNewGame t).
Proof.
  destruct empty_board_ok as [Hwf H01].
  refine (conj Hwf (conj H01 (conj _ (conj _ (conj _ _))))); cbn; try lia; try reflexivity.
  intros p Hp. injection Hp as <-. apply spawn_piece_ok.
Qed.

Lemma initialState_reach : reachable_inv initialState.
Proof.
  destruct empty_board_ok as [Hwf H01].
  refine (conj Hwf (conj H01 (conj _ (conj _ (conj _ _))))); cbn; try lia; try reflexivity.
  intros p Hp. discriminate Hp.
Qed.

Lemma gap_state_reach : reachable_inv gap_state.
Proof.
  refine (conj _ (conj _ (conj _ (conj _ (conj _ _))))); cbn [board lines score level gap_state];
    try lia; try reflexivity.
  - split; [reflexivity | repeat constructor].
  - apply (bool_decide_unpack _). vm_compute. reflexivity.
  - intros p Hp. injection Hp as <-. split.
    + exact (valid_in_bounds gap_board (mkPosition 6 18) (tetromino_shape TI)
               ltac:(vm_compute; reflexivity)).
    + exact (tetromino_square TI).
Qed.

Lemma levelEffect_keeps (s s1 : GameState) :
  reachable_inv s -> trigger_ok s s1 -> reachable_inv (levelEffect s s1).
Proof.
  intros (Hwf & H01 & Hl & Hsc & Hlv & Hpc) (Hwf1 & H011 & Hl1 & Hsc1 & Hlv1 & Hpc1).
  unfold levelEffect. destruct (Z.eqb_spec (lines s1) (lines s)) as [Heq|Hne].
  - refine (conj Hwf1 (conj H011 (conj _ (conj _ (conj _ Hpc1))))); try lia.
    all: rewrite Hlv1, Hlv, Heq; reflexivity.
  - refine (conj Hwf1 (conj H011 (conj _ (conj _ (conj _ Hpc1))))); cbn; try lia.
    all: reflexivity.
Qed.

Lemma pauseButton_keeps (s : GameState) : reachable_inv s -> trigger_ok s (pauseButton s).
Proof.
  intros (Hwf & H01 & Hl & Hsc & Hlv & Hpc).
  unfold pauseButton. destruct (gameOver s); split_trigger.
Qed.

Lemma initEffect_keeps (s : GameState) (t : TetrominoType) :
  reachable_inv s -> reachable_inv (initEffect s t).
Proof.
  intros Hinv. unfold initEffect.
  destruct (currentPiece s) eqn:Hc; [exact Hinv|].
  destruct (gameOver s); [exact Hinv|].
  destruct Hinv as (Hwf & H01 & Hl & Hsc & Hlv & Hpc).
  refine (conj Hwf (conj H01 (conj Hl (conj Hsc (conj Hlv _))))).
  intros p Hp. injection Hp as <-. apply spawn_piece_ok.
Qed.

Lemma step_keeps (s : GameState) (t : TetrominoType) (ev : Event) :
  reachable_inv s -> exists s', step s t ev = Some s' /\ reachable_inv s'.
Proof.
  intros Hinv. unfold step. destruct ev as [| k | |].
  - destruct (movePieceDown_keeps s t Hinv) as [s1 [-> H1]]. cbn [mbind option_bind].
    eexists. split; [reflexivity | exact (levelEffect_keeps _ _ Hinv H1)].
  - destruct (handleKeyPress_keeps s t k Hinv) as [s1 [-> H1]]. cbn [mbind option_bind].
    eexists. split; [reflexivity | exact (levelEffect_keeps _ _ Hinv H1)].
  - cbn [mbind option_bind]. eexists. split; [reflexivity|].
    exact (levelEffect_keeps _ _ Hinv (pauseButton_keeps s Hinv)).
  - cbn [mbind option_bind]. eexists. split; [reflexivity|].
    pose proof (startNewGame_reach t) as (Hwf & H01 & Hl & Hsc & Hlv & Hpc).
    unfold levelEffect. destruct (_ =? _); [exact (startNewGame_reach t)|].
    exact (conj Hwf (conj H01 (conj Hl (conj Hsc (conj eq_refl Hpc))))).
Qed.

Lemma run_keeps (s : GameState) (trace : list (TetrominoType * Event)) :
  reachable_inv s -> exists s', run s trace = Some s' /\ reachable_inv s'.
Proof.
  revert s. induction trace as [|[t ev] rest IH]; intros s Hinv; simpl.
  - exists s. split; [reflexivity | exact Hinv].
  - destruct (step_keeps s t ev Hinv) as [s1 [-> H1]]. cbn [mbind option_bind].
    exact (IH _ (initEffect_keeps s1 t H1)).
Qed.

Lemma step_trigger (s s' : GameState) (t : TetrominoType) (ev : Event) :
  reachable_inv s -> ev <> NewGameClick -> step s t ev = Some s' ->
  exists s1, trigger_ok s s1 /\ s' = levelEffect s s1.
Proof.
  intros Hinv Hev H. unfold step in H. destruct ev as [| k | |]; [| | |congruence].
  - destruct (movePieceDown_keeps s t Hinv) as [s1 [E H1]]. rewrite E in H.
    injection H as <-. exists s1. auto.
  - destruct (handleKeyPress_keeps s t k Hinv) as [s1 [E H1]]. rewrite E in H.
    injection H as <-. exists s1. auto.
  - injection H as <-. exists (pauseButton s). split; [exact (pauseButton_keeps s Hinv) | reflexivity].
Qed.

Lemma movePieceDown_score (s s' : GameState) (t : TetrominoType) :
  movePieceDown s t = Some s' -> exists k, score s' = score s + k * 100.
Proof.
  intros H. unfold movePieceDown in H.
  destruct (currentPiece s) as [cp|]; [|injection H as <-; exists 0; lia].
  destruct (gameOver s || isPaused s); [injection H as <-; exists 0; lia|].
  destruct (isValidPosition _ _ _ _); [injection H as <-; exists 0; simpl; lia|].
  destruct (placePiece (board s) cp) as [nb|]; cbn [mbind option_bind] in H; [|discriminate].
  destruct (clearLines nb) as [cb n].
  exists (n * level s). destruct (negb _); injection H as <-; simpl; lia.
Qed.

Lemma handleKeyPress_score (s s' : GameState) (t : TetrominoType) (key : string) :
  handleKeyPress s t key = Some s' -> exists k, score s' = score s + k * 100.
Proof.
  intros H. unfold handleKeyPress in H.
  destruct (currentPiece s) as [cp|]; [|injection H as <-; exists 0; lia].
  destruct (gameOver s || isPaused s); [injection H as <-; exists 0; lia|].
  repeat match type of H with
  | (if ?c then _ else _) = _ => destruct c
  end;
  try (injection H as <-; exists 0; simpl; lia).
  all: try solve [eapply movePieceDown_score; eauto].
  all: destruct (rotatePiece (shape cp)); simpl in H; [|discriminate].
  all: destruct (isValidPosition _ _ _ _); injection H as <-; exists 0; simpl; lia.
Qed.

Lemma paints_refl (b : Board) : paints b b (fun _ _ => False).
Proof. intros r c _ _. split; [auto|]. split; [contradiction | reflexivity]. Qed.

Lemma paints_trans (b b1 b2 : Board) (h1 h2 h : Z -> Z -> Prop) :
  paints b b1 h1 -> paints b1 b2 h2 -> (forall r c, h r c <-> h1 r c \/ h2 r c) ->
  paints b b2 h.
Proof.
  intros P1 P2 Hh r c Hr Hc.
  destruct (P1 r c Hr Hc) as (m1 & a1 & n1). destruct (P2 r c Hr Hc) as (m2 & a2 & n2).
  split; [auto|]. split.
  - intros H. apply Hh in H as [H|H]; auto.
  - intros Hn. rewrite n2, n1; [reflexivity| |]; intros H; apply Hn, Hh; auto.
Qed.

Lemma drawCell_spec (b : Board) (R C : Z) :
  wf_board b ->
  exists b', drawCell b R C = Some b' /\ wf_board b' /\
    paints b b' (fun r c => R = r /\ C = c).
Proof.
  intros [Hlen Hrows]. unfold drawCell. rewrite !Z.geb_leb.
  destruct (Z.leb_spec 0 R), (Z.ltb_spec R BOARD_HEIGHT), (Z.leb_spec 0 C),
    (Z.ltb_spec C BOARD_WIDTH); simpl;
    try solve [exists b; split; [reflexivity|]; split; [split; assumption|];
               intros r c Hr Hc; split; [auto|]; split; [intros [-> ->]; lia | reflexivity]].
  destruct (lookup_lt_is_Some_2 b (Z.to_nat R) ltac:(unfold BOARD_HEIGHT in *; lia))
    as [row Hrow].
  rewrite Hrow.
  pose proof (Forall_lookup_1 _ _ _ _ Hrows Hrow) as Hrl. simpl in Hrl.
  eexists. split; [reflexivity|]. split.
  - split; [rewrite length_insert; assumption|].
    apply Forall_insert; [assumption|]. simpl. rewrite length_insert. assumption.
  - intros r c Hr Hc. unfold cell.
    destruct (Z.eq_dec R r) as [<-|HRr].
    + rewrite list_lookup_insert_eq by (unfold BOARD_HEIGHT in *; lia).
      destruct (Z.eq_dec C c) as [<-|HCc].
      * rewrite list_lookup_insert_eq by (unfold BOARD_WIDTH in *; lia).
        split; [auto|]. split; [auto|]. intros Hn. exfalso. auto.
      * rewrite list_lookup_insert_ne by lia. rewrite Hrow.
        split; [auto|]. split; [intros [_ ?]; contradiction | reflexivity].
    + rewrite list_lookup_insert_ne by lia.
      split; [auto|]. split; [intros [? _]; contradiction | reflexivity].
Qed.

Lemma drawCells_spec (b : Board) (pos : Position) (yi xi : nat) (cells : list Z) :
  wf_board b ->
  exists b', drawCells b pos yi xi cells = Some b' /\ wf_board b' /\
    paints b b' (row_hits pos yi xi cells).
Proof.
  revert b xi. induction cells as [|v rest IH]; intros b xi Hwf.
  - exists b. split; [reflexivity|]. split; [exact Hwf|].
    intros r c _ _. split; [auto|]. split; [|auto].
    intros (j & w & Hj & _). discriminate Hj.
  - assert (Hshift : forall r c, row_hits pos yi xi (v :: rest) r c <->
              (v <> 0 /\ y pos + Z.of_nat yi = r /\ x pos + Z.of_nat xi = c) \/
              row_hits pos yi (S xi) rest r c).
    { intros r c. split.
      - intros ([|j] & w & Hj & Hw & Hyr & Hxc); simpl in Hj.
        + injection Hj as <-. left. rewrite Nat.add_0_r in Hxc. auto.
        + right. exists j, w. replace (S xi + j)%nat with (xi + S j)%nat by lia. auto.
      - intros [(Hv & Hyr & Hxc) | (j & w & Hj & Hw & Hyr & Hxc)].
        + exists 0%nat, v. rewrite Nat.add_0_r. auto.
        + exists (S j), w. replace (xi + S j)%nat with (S xi + j)%nat by lia. auto. }
    cbn [drawCells]. destruct (truthy v) eqn:Ev.
    + unfold truthy in Ev. apply negb_true_iff, Z.eqb_neq in Ev.
      destruct (drawCell_spec b (y pos + Z.of_nat yi) (x pos + Z.of_nat xi) Hwf)
        as [b1 [Hd [Hwf1 Hp1]]].
      rewrite Hd. cbn [mbind option_bind].
      destruct (IH b1 (S xi) Hwf1) as [b' [Hp [Hwf' Hm]]].
      exists b'. split; [exact Hp|]. split; [exact Hwf'|].
      apply (paints_trans _ _ _ _ _ _ Hp1 Hm).
      intros r c. rewrite Hshift. tauto.
    + unfold truthy in Ev. apply negb_false_iff, Z.eqb_eq in Ev.
      cbn [mbind option_bind].
      destruct (IH b (S xi) Hwf) as [b' [Hp [Hwf' Hm]]].
      exists b'. split; [exact Hp|]. split; [exact Hwf'|].
      apply (paints_trans _ _ _ _ _ _ (paints_refl b) Hm).
      intros r c. rewrite Hshift. tauto.
Qed.

Lemma drawRows_spec (b : Board) (pos : Position) (yi : nat) (rows : list (list Z)) :
  wf_board b ->
  exists b', drawRows b pos yi rows = Some b' /\ wf_board b' /\
    paints b b' (rows_hits pos yi rows).
Proof.
  revert b yi. induction rows as [|row rest IH]; intros b yi Hwf.
  - exists b. split; [reflexivity|]. split; [exact Hwf|].
    intros r c _ _. split; [auto|]. split; [|auto].
    intros (i & row & j & w & Hi & _). discriminate Hi.
  - destruct (drawCells_spec b pos yi 0 row Hwf) as [b1 [Hc [Hwf1 Hm1]]].
    destruct (IH b1 (S yi) Hwf1) as [b' [Hp [Hwf' Hm]]].
    exists b'. cbn [drawRows]. rewrite Hc. cbn [mbind option_bind].
    split; [exact Hp|]. split; [exact Hwf'|].
    apply (paints_trans _ _ _ _ _ _ Hm1 Hm).
    intros r c. split.
    + intros ([|i] & rw & j & w & Hi & Hj & Hw & Hyr & Hxc); simpl in Hi.
      * injection Hi as <-. left. exists j, w. rewrite Nat.add_0_r in Hyr. auto.
      * right. exists i, rw, j, w. replace (S yi + i)%nat with (yi + S i)%nat by lia. auto.
    + intros [(j & w & Hj & Hw & Hyr & Hxc) | (i & rw & j & w & Hi & Hj & Hw & Hyr & Hxc)].
      * exists 0%nat, row, j, w. rewrite Nat.add_0_r. auto.
      * exists (S i), rw, j, w. replace (yi + S i)%nat with (S yi + i)%nat by lia. auto.
Qed.

Lemma filter_all {A} (f : A -> bool) (l : list A) :
  Forall (fun a => f a = true) l -> List.filter f l = l.
Proof. induction 1 as [|a l Ha Hl IH]; simpl; [reflexivity|]. rewrite Ha, IH. reflexivity. Qed.

(** ** Properties of the whole component *)

(** A session never throws: from the first render (the initialising effect
    drawing the first piece), every sequence of ticks, key presses and
    button clicks is processed without a TypeError, and every state reached
    has a board of [BOARD_HEIGHT] rows of [BOARD_WIDTH] cells holding 0 or
    1, non-negative lines and score, [level = floor(lines / 10) + 1], and a
    current piece (if any) whose set cells lie in the board's columns and
    above its bottom and whose shape is a non-empty square matrix. *)
Theorem session_never_throws (t0 : TetrominoType) (trace : list (TetrominoType * Event)) :
  exists s', run (initEffect initialState t0) trace = Some s' /\ reachable_inv s'.
Proof. exact (run_keeps _ trace (initEffect_keeps _ t0 initialState_reach)). Qed.

(** Within a session (no New Game click), no trigger lowers the score or the
    number of cleared lines. *)
Theorem step_score_lines_monotone (s s' : GameState) (t : TetrominoType) (ev : Event) :
  reachable_inv s -> ev <> NewGameClick -> step s t ev = Some s' ->
  score s <= score s' /\ lines s <= lines s'.
Proof.
  intros Hinv Hev H.
  destruct (step_trigger s s' t ev Hinv Hev H) as [s1 [(_ & _ & Hl & Hs & _) ->]].
  unfold levelEffect. destruct (_ =? _); simpl; lia.
Qed.

Lemma step_score_lines_monotone_witness :
  exists s', step gap_state TT Tick = Some s' /\
    score gap_state <= score s' /\ lines gap_state <= lines s'.
Proof.
  eexists. split; [vm_compute; reflexivity|].
  apply (step_score_lines_monotone gap_state _ TT Tick);
    [exact gap_state_reach | discriminate | vm_compute; reflexivity].
Defined.

(** The score stays a multiple of 100: every trigger adds a multiple of 100
    to it (a landing adds [linesCleared * 100 * level]) or resets it to 0. *)
Theorem step_score_multiple_of_100 (s s' : GameState) (t : TetrominoType) (ev : Event) :
  score s mod 100 = 0 -> step s t ev = Some s' -> score s' mod 100 = 0.
Proof.
  intros Hs H. unfold step in H.
  assert (Hk : match ev with
               | NewGameClick => score s' = 0
               | _ => exists k, score s' = score s + k * 100
               end).
  { destruct ev as [| k | |].
    - destruct (movePieceDown s t) as [s1|] eqn:E; simpl in H; [|discriminate].
      injection H as <-. destruct (movePieceDown_score _ _ _ E) as [k Hk].
      exists k. unfold levelEffect. destruct (_ =? _); exact Hk.
    - destruct (handleKeyPress s t k) as [s1|] eqn:E; simpl in H; [|discriminate].
      injection H as <-. destruct (handleKeyPress_score _ _ _ _ E) as [j Hj].
      exists j. unfold levelEffect. destruct (_ =? _); exact Hj.
    - injection H as <-. exists 0. unfold levelEffect, pauseButton.
      destruct (gameOver s); simpl; destruct (_ =? _); simpl; lia.
    - injection H as <-. unfold levelEffect. destruct (_ =? _); reflexivity. }
  destruct ev; [| | |rewrite Hk; reflexivity].
  all: destruct Hk as [k ->]; rewrite Z_mod_plus_full; exact Hs.
Qed.

Lemma step_score_multiple_of_100_witness :
  exists s', step gap_state TT Tick = Some s' /\
    score gap_state mod 100 = 0 /\ score s' mod 100 = 0.
Proof.
  eexists. split; [vm_compute; reflexivity|]. split; [reflexivity|].
  apply (step_score_multiple_of_100 gap_state _ TT Tick);
    [reflexivity | vm_compute; reflexivity].
Defined.

(** Game over is final: once [gameOver] holds, every tick, key press and
    Pause click leaves the whole state unchanged (the Pause button is
    disabled); only New Game leaves that state. *)
Theorem game_over_terminal (s : GameState) (t : TetrominoType) (ev : Event) :
  gameOver s = true -> ev <> NewGameClick -> step s t ev = Some s.
Proof.
  intros Hg Hev. unfold step.
  assert (Hle : levelEffect s s = s) by (unfold levelEffect; rewrite Z.eqb_refl; reflexivity).
  destruct ev as [| k | |]; [| | |congruence]; cbn [mbind option_bind].
  - unfold movePieceDown. destruct (currentPiece s); [rewrite Hg|]; simpl; rewrite Hle; reflexivity.
  - unfold handleKeyPress. destruct (currentPiece s); [rewrite Hg|]; simpl; rewrite Hle; reflexivity.
  - unfold pauseButton. rewrite Hg. simpl. rewrite Hle. reflexivity.
Qed.

Lemma game_over_terminal_witness :
  gameOver (setGameOver true stacked_state) = true /\
  step (setGameOver true stacked_state) TI (KeyDown "ArrowLeft"%string)
  = Some (setGameOver true stacked_state).
Proof. split; [reflexivity | apply game_over_terminal; [reflexivity | discriminate]]. Defined.

(** The New Game button restarts from any state: an empty board, a fresh
    piece, score and lines 0, level 1, not over and not paused; the level
    effect that follows has nothing to change. *)
Theorem new_game_resets (s : GameState) (t : TetrominoType) :
  step s t NewGameClick = Some (startNewGame t).
Proof.
  unfold step. cbn [mbind option_bind]. unfold levelEffect.
  destruct (_ =? _); reflexivity.
Qed.

(** While the game is paused, no tick and no key press changes the state
    (not even the pause key); only the buttons do. *)
Theorem paused_frozen (s : GameState) (t : TetrominoType) (ev : Event) :
  isPaused s = true -> ev = Tick \/ (exists k, ev = KeyDown k) -> step s t ev = Some s.
Proof.
  intros Hp Hev. unfold step.
  assert (Hle : levelEffect s s = s) by (unfold levelEffect; rewrite Z.eqb_refl; reflexivity).
  destruct Hev as [-> | [k ->]]; cbn [mbind option_bind].
  - unfold movePieceDown. destruct (currentPiece s); [rewrite Hp, orb_true_r|]; simpl;
      rewrite Hle; reflexivity.
  - unfold handleKeyPress. destruct (currentPiece s); [rewrite Hp, orb_true_r|]; simpl;
      rewrite Hle; reflexivity.
Qed.

Lemma paused_frozen_witness :
  isPaused paused_state = true /\
  step paused_state TI (KeyDown "ArrowDown"%string) = Some paused_state.
Proof.
  split; [reflexivity|].
  apply paused_frozen; [reflexivity | right; exists "ArrowDown"%string; reflexivity].
Defined.

(** Before game over, the Pause/Resume button flips [isPaused] and nothing
    else, so two clicks give back the state. *)
Theorem pause_button_roundtrip (s : GameState) (t : TetrominoType) :
  gameOver s = false ->
  exists s1, step s t PauseClick = Some s1 /\
    s1 = setIsPaused (negb (isPaused s)) s /\
    step s1 t PauseClick = Some s.
Proof.
  intros Hg. destruct s as [b cp sc ln lv go pa]. simpl in Hg. subst go.
  eexists. split; [|split; [reflexivity|]].
  - unfold step. cbn [mbind option_bind]. unfold levelEffect, pauseButton. simpl.
    rewrite Z.eqb_refl. reflexivity.
  - unfold step. cbn [mbind option_bind]. unfold levelEffect, pauseButton. simpl.
    rewrite Z.eqb_refl, negb_involutive. reflexivity.
Qed.

Lemma pause_button_roundtrip_witness :
  gameOver stacked_state = false /\
  exists s1, step stacked_state TI PauseClick = Some s1 /\
    s1 = setIsPaused (negb (isPaused stacked_state)) stacked_state /\
    step s1 TI PauseClick = Some stacked_state.
Proof. split; [reflexivity | apply pause_button_roundtrip; reflexivity]. Defined.

(** A key other than ArrowDown never changes the board, the score, the
    lines, the level or [gameOver]; afterwards the current piece is the one
    before, or a piece (moved left, moved right or rotated) at a valid
    position on the board. *)
Theorem key_moves_valid (s s' : GameState) (t : TetrominoType) (k : string) :
  k <> "ArrowDown"%string ->
  handleKeyPress s t k = Some s' ->
  board s' = board s /\ score s' = score s /\ lines s' = lines s /\
  level s' = level s /\ gameOver s' = gameOver s /\
  (currentPiece s' = currentPiece s \/
   exists p, currentPiece s' = Some p /\ isValidPosition (board s) p (position p) None = true).
Proof.
  intros Hk H. unfold handleKeyPress in H.
  destruct (currentPiece s) as [cp|] eqn:Hc;
    [|injection H as <-; repeat split; left; exact Hc].
  destruct (gameOver s || isPaused s); [injection H as <-; repeat split; left; exact Hc|].
  destruct (String.eqb k "ArrowLeft"%string).
  { destruct (isValidPosition _ _ _ _) eqn:Hv; injection H as <-; repeat split;
      [right; eexists; split; [reflexivity | exact Hv] | left; exact Hc]. }
  destruct (String.eqb k "ArrowRight"%string).
  { destruct (isValidPosition _ _ _ _) eqn:Hv; injection H as <-; repeat split;
      [right; eexists; split; [reflexivity | exact Hv] | left; exact Hc]. }
  destruct (String.eqb k "ArrowDown"%string) eqn:Ed;
    [apply String.eqb_eq in Ed; contradiction|].
  destruct (String.eqb k "ArrowUp"%string || String.eqb k " "%string).
  { destruct (rotatePiece (shape cp)) as [rs|]; cbn [mbind option_bind] in H; [|discriminate].
    destruct (isValidPosition _ _ _ _) eqn:Hv; injection H as <-; repeat split;
      [right; eexists; split; [reflexivity | exact Hv] | left; exact Hc]. }
  destruct (String.eqb k "p"%string || String.eqb k "P"%string); injection H as <-;
    repeat split; left; exact Hc.
Qed.

Lemma key_moves_valid_witness :
  "ArrowLeft"%string <> "ArrowDown"%string /\
  exists s', handleKeyPress stacked_state TI "ArrowLeft"%string = Some s' /\
    board s' = board stacked_state /\ score s' = score stacked_state /\
    lines s' = lines stacked_state /\ level s' = level stacked_state /\
    gameOver s' = gameOver stacked_state /\
    (currentPiece s' = currentPiece stacked_state \/
     exists p, currentPiece s' = Some p /\
       isValidPosition (board stacked_state) p (position p) None = true).
Proof.
  split; [discriminate|].
  eexists. split; [vm_compute; reflexivity|].
  apply (key_moves_valid stacked_state _ TI "ArrowLeft"%string);
    [discriminate | vm_compute; reflexivity].
Defined.

(** A piece with a set cell in column 0 cannot move left: ArrowLeft leaves
    the state unchanged. *)
Theorem left_wall_blocks (s : GameState) (t : TetrominoType) (cp : Piece) (r : Z) :
  currentPiece s = Some cp -> covers cp r 0 -> handleKeyPress s t "ArrowLeft"%string = Some s.
Proof.
  intros Hc (yi & xi & row & v & Hy & Hx & Hv & _ & Hxc). unfold handleKeyPress. rewrite Hc.
  destruct (gameOver s || isPaused s); [reflexivity|].
  rewrite String.eqb_refl.
  destruct (isValidPosition _ _ _ _) eqn:Hval; [|reflexivity]. exfalso.
  unfold isValidPosition in Hval. rewrite validRows_spec in Hval.
  destruct (Hval yi row xi v Hy Hx Hv) as [Hb _]. simpl in Hb. lia.
Qed.

Lemma left_wall_blocks_witness :
  covers (mkPiece (tetromino_shape TO) (tetromino_color TO) (mkPosition 0 5)) 5 0 /\
  handleKeyPress o_left_state TI "ArrowLeft"%string = Some o_left_state.
Proof.
  assert (Hcov : covers (mkPiece (tetromino_shape TO) (tetromino_color TO) (mkPosition 0 5)) 5 0).
  { exists 0%nat, 0%nat, [1; 1], 1. repeat split; lia. }
  split; [exact Hcov|].
  exact (left_wall_blocks o_left_state TI _ 5 eq_refl Hcov).
Defined.

(** A piece with a set cell in the last column cannot move right:
    ArrowRight leaves the state unchanged. *)
Theorem right_wall_blocks (s : GameState) (t : TetrominoType) (cp : Piece) (r : Z) :
  currentPiece s = Some cp -> covers cp r (BOARD_WIDTH - 1) ->
  handleKeyPress s t "ArrowRight"%string = Some s.
Proof.
  intros Hc (yi & xi & row & v & Hy & Hx & Hv & _ & Hxc). unfold handleKeyPress. rewrite Hc.
  destruct (gameOver s || isPaused s); [reflexivity|].
  change (String.eqb "ArrowRight"%string "ArrowLeft"%string) with false. cbv iota.
  rewrite String.eqb_refl.
  destruct (isValidPosition _ _ _ _) eqn:Hval; [|reflexivity]. exfalso.
  unfold isValidPosition in Hval. rewrite validRows_spec in Hval.
  destruct (Hval yi row xi v Hy Hx Hv) as [Hb _]. simpl in Hb. lia.
Qed.

Lemma right_wall_blocks_witness :
  covers (mkPiece (tetromino_shape TO) (tetromino_color TO) (mkPosition 8 5)) 6 (BOARD_WIDTH - 1) /\
  handleKeyPress o_right_state TI "ArrowRight"%string = Some o_right_state.
Proof.
  assert (Hcov : covers (mkPiece (tetromino_shape TO) (tetromino_color TO) (mkPosition 8 5))
                   6 (BOARD_WIDTH - 1)).
  { exists 1%nat, 1%nat, [1; 1], 1. repeat split; cbn; lia. }
  split; [exact Hcov|].
  exact (right_wall_blocks o_right_state TI _ 6 eq_refl Hcov).
Defined.

(** [clearLines] leaves nothing to clear: on a board of at most
    [BOARD_HEIGHT] rows, clearing the cleared board again removes no row and
    returns it unchanged. *)
Theorem clearLines_idempotent (b : Board) :
  (length b <= Z.to_nat BOARD_HEIGHT)%nat ->
  clearLines (fst (clearLines b)) = (fst (clearLines b), 0).
Proof.
  intros Hlen.
  assert (E20 : Z.to_nat BOARD_HEIGHT = 20%nat) by reflexivity.
  assert (Ecb : fst (clearLines b) =
                replicate (20 - length (List.filter has_empty b)) empty_row
                ++ List.filter has_empty b).
  { unfold clearLines. cbn [fst]. rewrite unshift_rows_app, E20. reflexivity. }
  rewrite Ecb. set (l := List.filter has_empty b) in *.
  assert (Hl : (length l <= 20)%nat).
  { pose proof (filter_length_le has_empty b). unfold l. lia. }
  assert (Hall : Forall (fun r => has_empty r = true) l).
  { apply List.Forall_forall. intros r Hr. apply filter_In in Hr. apply Hr. }
  unfold clearLines. rewrite filter_all.
  - rewrite length_app, length_replicate, E20.
    replace (20 - (20 - length l + length l))%nat with 0%nat by lia.
    cbn [unshift_rows]. f_equal. unfold BOARD_HEIGHT. lia.
  - apply Forall_app. split; [|exact Hall].
    apply Forall_replicate. reflexivity.
Qed.

Lemma clearLines_idempotent_witness :
  (length full_bottom_board <= Z.to_nat BOARD_HEIGHT)%nat /\
  clearLines (fst (clearLines full_bottom_board)) = (fst (clearLines full_bottom_board), 0).
Proof.
  assert (H : (length full_bottom_board <= Z.to_nat BOARD_HEIGHT)%nat)
    by (vm_compute; lia).
  split; [exact H | exact (clearLines_idempotent _ H)].
Defined.

(** The interval of the game loop, [gameSpeed level], lies between 100 ms
    and 1000 ms in every reachable state, and reaches its floor of 100 ms
    exactly from 90 cleared lines on (level 10). *)
Theorem gameSpeed_range (s : GameState) :
  reachable_inv s ->
  100 <= gameSpeed (level s) <= 1000 /\ (gameSpeed (level s) = 100 <-> 90 <= lines s).
Proof.
  intros (_ & _ & Hl & _ & Hlv & _). unfold gameSpeed. rewrite Hlv.
  pose proof (Z.div_pos (lines s) 10 Hl ltac:(lia)) as Hq.
  assert (H9 : 9 <= lines s / 10 <-> 90 <= lines s).
  { split; intros H.
    - pose proof (Z.mul_div_le (lines s) 10 ltac:(lia)). lia.
    - apply Z.div_le_lower_bound; lia. }
  rewrite <- H9.
  destruct (Z.max_spec 100 (1000 - (lines s / 10 + 1 - 1) * 100)) as [[Hm ->] | [Hm ->]];
    split; try split; intros; lia.
Qed.

Lemma gameSpeed_range_witness :
  100 <= gameSpeed (level gap_state) <= 1000 /\
  (gameSpeed (level gap_state) = 100 <-> 90 <= lines gap_state).
Proof. exact (gameSpeed_range gap_state gap_state_reach). Defined.

(** [renderBoard] never throws on a board of [BOARD_HEIGHT] rows of
    [BOARD_WIDTH] cells, wherever the current piece is: the board it
    displays has the same size, shows 2 on every board cell covered by a
    set cell of the piece, and keeps the board's value on every other cell;
    set cells outside the board are not drawn. *)
Theorem displayBoard_paints (s : GameState) (cp : Piece) :
  wf_board (board s) -> currentPiece s = Some cp ->
  exists d, displayBoard s = Some d /\ wf_board d /\
    forall r c, 0 <= r < BOARD_HEIGHT -> 0 <= c < BOARD_WIDTH ->
      (covers cp r c -> cell d r c = 2) /\ (~ covers cp r c -> cell d r c = cell (board s) r c).
Proof.
  intros Hwf Hc. unfold displayBoard. rewrite Hc.
  destruct (drawRows_spec (board s) (position cp) 0 (shape cp) Hwf) as [d [Hd [Hwfd Hp]]].
  exists d. split; [exact Hd|]. split; [exact Hwfd|].
  intros r c Hr Hcc. destruct (Hp r c Hr Hcc) as (_ & Hhit & Hnot). split.
  - intros (yi & xi & row & v & Hy & Hx & Hv & Hyr & Hxc). apply Hhit.
    exists yi, row, xi, v. auto.
  - intros Hn. apply Hnot. intros (i & row & j & v & Hi & Hj & Hv & Hyr & Hxc).
    apply Hn. exists i, j, row, v. auto.
Qed.

Lemma displayBoard_paints_witness :
  exists d, displayBoard o_right_state = Some d /\ wf_board d /\
    forall r c, 0 <= r < BOARD_HEIGHT -> 0 <= c < BOARD_WIDTH ->
      (covers (mkPiece (tetromino_shape TO) (tetromino_color TO) (mkPosition 8 5)) r c ->
       cell d r c = 2) /\
      (~ covers (mkPiece (tetromino_shape TO) (tetromino_color TO) (mkPosition 8 5)) r c ->
       cell d r c = cell (board o_right_state) r c).
Proof.
  apply displayBoard_paints; [exact (proj1 empty_board_ok) | reflexivity].
Defined.

(** [rotatePiece] turns a shape of [R >= 1] rows and [C] columns a quarter
    turn clockwise: the result has [C] rows of [R] cells and the cell in row
    [r], column [c] moves to row [c], column [R - 1 - r]. *)
Theorem rotatePiece_clockwise (R C : nat) (m : list (list Z)) :
  is_matrix R C m -> (0 < R)%nat ->
  exists m', rotatePiece m = Some m' /\ is_matrix C R m' /\
    forall r c, (r < R)%nat -> (c < C)%nat -> entry m' c (R - 1 - r) = entry m r c.
Proof.
  intros Hm HR. destruct (rotatePiece_spec R C m Hm HR) as [m' [Hr [Hm' He]]].
  exists m'. split; [exact Hr|]. split; [exact Hm'|].
  intros r c Hr' Hc. rewrite He by lia. f_equal. lia.
Qed.

Lemma rotatePiece_clockwise_witness :
  is_matrix 3 3 (tetromino_shape TT) /\
  exists m', rotatePiece (tetromino_shape TT) = Some m' /\ is_matrix 3 3 m' /\
    forall r c, (r < 3)%nat -> (c < 3)%nat -> entry m' c (3 - 1 - r) = entry (tetromino_shape TT) r c.
Proof.
  assert (Hm : is_matrix 3 3 (tetromino_shape TT)) by (split; [reflexivity | repeat constructor]).
  split; [exact Hm|]. exact (rotatePiece_clockwise 3 3 _ Hm ltac:(lia)).
Defined.
